(** * django_socio_grpc.protobuf.generators

    A shallow embedding of [ModelProtoGenerator] and [_CodeWriter]
    (src/django_socio_grpc/protobuf/generators.py) and the properties of the
    generated proto document.

    Python values are embedded as follows.
    - [str] is [string]; an f-string is a chain of [++].
    - [int] is [Z]; [range(n)] runs [Z.to_nat n] times.
    - a [dict] is an association list in insertion order with unique keys
      ([Dict.wf]); [.items()] is the list itself, [{**a, **b}] is
      [Dict.merge [a; b]].
    - an attribute or key that may be absent ([hasattr], [.get(k, default)])
      is an [option].
    - the writer is a mutable object: code that writes takes the writer and
      returns the writer it left behind together with either a value or the
      exception it raised. *)

From Stdlib Require Import String Ascii List ZArith Lia Bool.
From Stdlib Require Import DecimalString DecimalPos DecimalZ.
Import ListNotations.

Local Open Scope string_scope.
Local Open Scope Z_scope.

(** ** Python dictionaries *)

Module Dict.

Definition t (V : Type) := list (string * V).

Section Ops.
Context {V : Type}.

Definition keys (d : t V) : list string := map fst d.

(** [d.get(k)] *)
Fixpoint get (d : t V) (k : string) : option V :=
  match d with
  | [] => None
  | (k', v) :: d' => if String.eqb k' k then Some v else get d' k
  end.

(** [d[k] = v]: an existing key keeps its position and takes the new
    value, a new key goes last. *)
Fixpoint set (d : t V) (k : string) (v : V) : t V :=
  match d with
  | [] => [(k, v)]
  | (k', v') :: d' =>
      if String.eqb k' k then (k', v) :: d' else (k', v') :: set d' k v
  end.

(** [d.update(e)] *)
Definition update (d e : t V) : t V :=
  fold_left (fun acc kv => set acc (fst kv) (snd kv)) e d.

(** [{**d1, **d2, ...}] *)
Definition merge (ds : list (t V)) : t V := fold_left update ds [].

Fixpoint mem (k : string) (ks : list string) : bool :=
  match ks with
  | [] => false
  | k' :: ks' => String.eqb k' k || mem k ks'
  end.

Fixpoint nodupb (ks : list string) : bool :=
  match ks with
  | [] => true
  | k :: ks' => negb (mem k ks') && nodupb ks'
  end.

(** The keys of a dictionary are pairwise different. *)
Definition wf (d : t V) : bool := nodupb (keys d).

End Ops.

End Dict.

(** ** The model registry, as the generator reads it *)

(** [field_info.name] and [field_info.get_internal_type()]. *)
Record Field := {
  name : string;
  get_internal_type : string
}.

(** The value of an entry of [grpc_messages]: the string ["*"] or a list of
    field names. *)
Inductive FieldsSpec :=
| AllFields
| FieldNames (names : list string).

(** [{is_stream: <boolean>, message: <string>}], both keys optional. *)
Record MessageInfo := {
  is_stream : option bool;
  message : option string
}.

(** [dict()] *)
Definition empty_info : MessageInfo := {| is_stream := None; message := None |}.

(** The value of an entry of [grpc_methods]: a dict with the optional keys
    ["request"] and ["response"]. *)
Record MethodData := {
  request : option MessageInfo;
  response : option MessageInfo
}.

Record Model := {
  __name__ : string;
  is_abstract_model : bool;
  get_model_fields : list Field;
  pk_name : string;
  _meta_grpc_methods : option (Dict.t MethodData);
  _meta_grpc_messages : option (Dict.t FieldsSpec)
}.

Inductive Exception :=
| FieldDoesNotExist (model_name field_name : string)
| LookupError (app_label : string) (model_name : option string).

(** Modelled from the spec: [model._meta.get_field] belongs to the host
    framework; a field name resolves to the field descriptor of that name
    in the model's field list, and a name the model does not have is an
    error. *)
Fixpoint find_field (fields : list Field) (field_name : string) : option Field :=
  match fields with
  | [] => None
  | f :: fields' =>
      if String.eqb (name f) field_name then Some f else find_field fields' field_name
  end.

Definition get_field (model : Model) (field_name : string) : Exception + Field :=
  match find_field (get_model_fields model) field_name with
  | Some f => inr f
  | None => inl (FieldDoesNotExist (__name__ model) field_name)
  end.

(** An application label and the models registered under it. *)
Definition Registry := list (string * list Model).

Fixpoint get_app_config (apps : Registry) (app_label : string) : option (list Model) :=
  match apps with
  | [] => None
  | (label, ms) :: apps' =>
      if String.eqb label app_label then Some ms else get_app_config apps' app_label
  end.

(** Modelled from the spec: [get_model] of utils.model_extractor is not part
    of the sources at hand; the named model of the named application, an
    error when the scope does not resolve. *)
Definition get_model (apps : Registry) (app_name model_name : string)
  : Exception + Model :=
  match get_app_config apps app_name with
  | None => inl (LookupError app_name (Some model_name))
  | Some ms =>
      match find (fun m => String.eqb (__name__ m) model_name) ms with
      | Some m => inr m
      | None => inl (LookupError app_name (Some model_name))
      end
  end.

(** ** The mixins *)

(** The two static methods of a mixin that the generator calls.
    [get_default_message] is called with or without its [fields]
    argument. *)
Record Mixin := {
  get_default_method : string -> Dict.t MethodData;
  get_default_message : string -> option FieldsSpec -> Dict.t FieldsSpec
}.

Record Mixins := {
  ListModelMixin : Mixin;
  CreateModelMixin : Mixin;
  RetrieveModelMixin : Mixin;
  UpdateModelMixin : Mixin;
  DestroyModelMixin : Mixin
}.

(** ** _CodeWriter *)

Record _CodeWriter := {
  buffer : string;
  _indent : Z
}.

(** [_CodeWriter()] *)
Definition new_writer : _CodeWriter := {| buffer := ""; _indent := 0 |}.

(** Code that works on the writer: the result, or the exception raised, and
    the writer as it was left. *)
Definition Code (A : Type) := _CodeWriter -> (Exception + A) * _CodeWriter.

Definition ret {A} (a : A) : Code A := fun w => (inr a, w).

Definition raise {A} (e : Exception) : Code A := fun w => (inl e, w).

Definition bind {A B} (c : Code A) (k : A -> Code B) : Code B :=
  fun w =>
    match c w with
    | (inr a, w') => k a w'
    | (inl e, w') => (inl e, w')
    end.

Declare Scope code_scope.
Delimit Scope code_scope with code.
Notation "x <- c ;; k" := (bind c (fun x => k))
  (at level 61, c at next level, right associativity) : code_scope.
Notation "c ;; k" := (bind c (fun _ => k))
  (at level 61, right associativity) : code_scope.
Local Open Scope code_scope.

Definition lift {A} (r : Exception + A) : Code A := fun w => (r, w).

(** [for x in xs: body(x)] *)
Fixpoint for_each {A} (xs : list A) (body : A -> Code unit) : Code unit :=
  match xs with
  | [] => ret tt
  | x :: xs' => body x ;; for_each xs' body
  end.

(** [__enter__] and [__exit__] *)
Definition __enter__ (w : _CodeWriter) : _CodeWriter :=
  {| buffer := buffer w; _indent := _indent w + 1 |}.

Definition __exit__ (w : _CodeWriter) : _CodeWriter :=
  {| buffer := buffer w; _indent := _indent w - 1 |}.

(** [with self._writer.indent(): body]: [__exit__] runs on every way out of
    the body, and an exception of the body goes on to the caller. *)
Definition with_indent {A} (body : Code A) : Code A :=
  fun w => let (r, w') := body (__enter__ w) in (r, __exit__ w').

(** The [for i in range(self._indent)] loop of [write_line]. *)
Fixpoint write_indent (n : nat) (buf : string) : string :=
  match n with
  | O => buf
  | S n' => write_indent n' (buf ++ "    ")
  end.

Definition newline : string := String (ascii_of_nat 10) "".

Definition write_line (line : string) : Code unit :=
  fun w =>
    (inr tt,
     {| buffer := write_indent (Z.to_nat (_indent w)) (buffer w) ++ line ++ newline;
        _indent := _indent w |}).

Definition get_code : Code string := fun w => (inr (buffer w), w).

(** ** ModelProtoGenerator *)

Definition type_mapping : Dict.t string :=
  [ ("AutoField", "int32");
    ("SmallIntegerField", "int32");
    ("IntegerField", "int32");
    ("BigIntegerField", "int64");
    ("PositiveSmallIntegerField", "int32");
    ("PositiveIntegerField", "int32");
    ("FloatField", "float");
    ("DecimalField", "string");
    ("BooleanField", "bool");
    ("NullBooleanField", "bool");
    ("DateField", "string");
    ("TimeField", "string");
    ("DateTimeField", "string");
    ("DurationField", "string");
    ("CharField", "string");
    ("TextField", "string");
    ("EmailField", "string");
    ("SlugField", "string");
    ("URLField", "string");
    ("UUIDField", "string");
    ("GenericIPAddressField", "string");
    ("FilePathField", "string");
    ("Field", "string") ].

(** [d.get(k, default)] and [x if present else default] *)
Definition get_or {A} (o : option A) (default : A) : A :=
  match o with
  | Some a => a
  | None => default
  end.

(** [self.type_mapping.get(tag, 'string')] *)
Definition map_type (tag : string) : string :=
  get_or (Dict.get type_mapping tag) "string".

(** [f"{number}"] *)
Definition str_int (number : Z) : string := NilZero.string_of_int (Z.to_int number).

Definition dquote : string := String (ascii_of_nat 34) "".

Record ModelProtoGenerator := {
  model_name : option string;
  app_name : string;
  models : list Model;
  _writer : _CodeWriter
}.

(** Truth value of a string ([if self.model_name], [if self.app_name]). *)
Definition truthy (s : string) : bool := negb (String.eqb s "").

(** [ModelProtoGenerator(app_name, model_name)], over the registry [apps]. *)
Definition __init__ (apps : Registry) (app_name : string) (model_name : option string)
  : Exception + ModelProtoGenerator :=
  let single := match model_name with Some n => truthy n | None => false end in
  match (if single
         then match get_model apps app_name (get_or model_name "") with
              | inr m => inr [m]
              | inl e => inl e
              end
         else match get_app_config apps app_name with
              | Some ms => inr ms
              | None => inl (LookupError app_name None)
              end) with
  | inr ms =>
      inr {| model_name := model_name; app_name := app_name; models := ms;
             _writer := new_writer |}
  | inl e => inl e
  end.

(** [transform a message_info of type {is_stream: <boolean>, message: <string>}
    to a rpc parameter or return value.] *)
Definition construct_method_message (message_info : MessageInfo) (model : Model) : string :=
  (if get_or (is_stream message_info) false then "stream " else "")
  ++ get_or (message message_info) (__name__ model).

(** The body of the [for field_name in grpc_message_fields_name] loop, with
    its counter [number]. *)
Fixpoint write_message_fields (model : Model) (grpc_message_fields_name : list string)
    (number : Z) : Code unit :=
  match grpc_message_fields_name with
  | [] => ret tt
  | field_name :: rest =>
      let number := number + 1 in
      field_info <- lift (get_field model field_name) ;;
      write_line (map_type (get_internal_type field_info) ++ " " ++ name field_info
                  ++ " = " ++ str_int number ++ ";") ;;
      write_message_fields model rest number
  end.

(** [if grpc_message_fields_name == "*"]: the names of all the fields of the
    model, in the order of [get_model_fields]; the names as given
    otherwise. *)
Definition expand_fields (model : Model) (grpc_message_fields_name : FieldsSpec)
  : list string :=
  match grpc_message_fields_name with
  | AllFields => map name (get_model_fields model)
  | FieldNames names => names
  end.

(** One turn of the [for ... in grpc_messages.items()] loop. *)
Definition write_message (model : Model) (item : string * FieldsSpec) : Code unit :=
  let (grpc_message_name, grpc_message_fields_name) := item in
  let grpc_message_fields_name := expand_fields model grpc_message_fields_name in
  write_line ("message " ++ grpc_message_name ++ " {") ;;
  with_indent (write_message_fields model grpc_message_fields_name 0) ;;
  write_line "}" ;;
  write_line "".

(** One turn of the [for ... in grpc_methods.items()] loop. *)
Definition write_rpc (model : Model) (item : string * MethodData) : Code unit :=
  let (method_name, method_data) := item in
  let request_message :=
    construct_method_message (get_or (request method_data) empty_info) model in
  let response_message :=
    construct_method_message (get_or (response method_data) empty_info) model in
  write_line ("rpc " ++ method_name ++ "(" ++ request_message ++ ") returns ("
              ++ response_message ++ ") {}").

Section Generator.

Variable mixins : Mixins.

Definition get_default_grpc_methods (model : Model) : Dict.t MethodData :=
  Dict.merge
    [ get_default_method (ListModelMixin mixins) (__name__ model);
      get_default_method (CreateModelMixin mixins) (__name__ model);
      get_default_method (RetrieveModelMixin mixins) (__name__ model);
      get_default_method (UpdateModelMixin mixins) (__name__ model);
      get_default_method (DestroyModelMixin mixins) (__name__ model) ].

Definition get_default_grpc_messages (model : Model) : Dict.t FieldsSpec :=
  Dict.merge
    [ get_default_message (CreateModelMixin mixins) (__name__ model) (Some AllFields);
      get_default_message (ListModelMixin mixins) (__name__ model) None;
      get_default_message (RetrieveModelMixin mixins) (__name__ model)
        (Some (FieldNames [pk_name model]));
      get_default_message (DestroyModelMixin mixins) (__name__ model)
        (Some (FieldNames [pk_name model])) ].

(** The method set of a model: the override when the model has one, the
    default set otherwise. *)
Definition grpc_methods_of (model : Model) : Dict.t MethodData :=
  get_or (_meta_grpc_methods model) (get_default_grpc_methods model).

Definition grpc_messages_of (model : Model) : Dict.t FieldsSpec :=
  get_or (_meta_grpc_messages model) (get_default_grpc_messages model).

Definition _generate_service (model : Model) : Code unit :=
  let grpc_methods := grpc_methods_of model in
  match grpc_methods with
  | [] => ret tt
  | _ :: _ =>
      write_line ("service " ++ __name__ model ++ "Controller {") ;;
      with_indent (for_each grpc_methods (write_rpc model)) ;;
      write_line "}" ;;
      write_line ""
  end.

Definition _generate_message (model : Model) : Code unit :=
  let grpc_messages := grpc_messages_of model in
  match grpc_messages with
  | [] => ret tt
  | _ :: _ => for_each grpc_messages (write_message model)
  end.

(** The first [for model in self.models] loop of [get_proto]. *)
Definition service_pass (ms : list Model) : Code unit :=
  for_each ms
    (fun model => if is_abstract_model model then ret tt else _generate_service model).

(** The second [for model in self.models] loop of [get_proto]. *)
Definition message_pass (ms : list Model) : Code unit :=
  for_each ms
    (fun model => if is_abstract_model model then ret tt else _generate_message model).

(** The statements of [get_proto] that write. *)
Definition write_proto (self : ModelProtoGenerator) : Code unit :=
  write_line ("syntax = " ++ dquote ++ "proto3" ++ dquote ++ ";") ;;
  write_line "" ;;
  write_line ("package "
              ++ (if truthy (app_name self) then app_name self
                  else get_or (model_name self) "None")
              ++ ";") ;;
  write_line "" ;;
  write_line ("import " ++ dquote ++ "google/protobuf/empty.proto" ++ dquote ++ ";") ;;
  write_line "" ;;
  service_pass (models self) ;;
  message_pass (models self).

(** [get_proto] as code on the writer of [self]. *)
Definition get_proto_code (self : ModelProtoGenerator) : Code string :=
  write_proto self ;;
  get_code.

(** [self.get_proto()]: what the call returns or raises, and [self] with the
    writer as the call left it. *)
Definition get_proto (self : ModelProtoGenerator)
  : (Exception + string) * ModelProtoGenerator :=
  let (r, w) := get_proto_code self (_writer self) in
  (r, {| model_name := model_name self; app_name := app_name self;
         models := models self; _writer := w |}).

End Generator.

(** ** The default descriptors of the mixins *)

(** Modelled from the spec: the mixins (django_socio_grpc.mixins) are not
    part of the sources at hand. A default operation descriptor has the
    method name [{Verb}{ModelName}], the request and response message names
    [{ModelName}{Verb}Request] and [{ModelName}{Verb}Response], and no
    streaming except the response of List. *)
Definition default_method (verb : string) (stream_response : bool) (model_name : string)
  : Dict.t MethodData :=
  [ (verb ++ model_name,
     {| request := Some {| is_stream := Some false;
                           message := Some (model_name ++ verb ++ "Request") |};
        response := Some {| is_stream := Some stream_response;
                            message := Some (model_name ++ verb ++ "Response") |} |}) ].

(** Modelled from the spec: the default message of a verb is the message
    [{ModelName}{Verb}Request] with the fields it is given; the List message
    is asked for without fields and uses all of them. *)
Definition default_message (verb : string) (model_name : string)
    (fields : option FieldsSpec) : Dict.t FieldsSpec :=
  [ (model_name ++ verb ++ "Request", get_or fields AllFields) ].

Definition spec_mixin (verb : string) (stream_response : bool) : Mixin :=
  {| get_default_method := default_method verb stream_response;
     get_default_message := default_message verb |}.

Definition spec_mixins : Mixins :=
  {| ListModelMixin := spec_mixin "List" true;
     CreateModelMixin := spec_mixin "Create" false;
     RetrieveModelMixin := spec_mixin "Retrieve" false;
     UpdateModelMixin := spec_mixin "Update" false;
     DestroyModelMixin := spec_mixin "Destroy" false |}.

(** ** Closed forms of the emitted text *)

(** The strings of a list, one after the other. *)
Definition flat (ss : list string) : string := fold_right append "" ss.

(** The indentation [write_line] puts in front of a line at depth [i]. *)
Definition pad (i : Z) : string := write_indent (Z.to_nat i) "".

(** The writer after [out] was appended to its buffer. *)
Definition emit (w : _CodeWriter) (out : string) : _CodeWriter :=
  {| buffer := buffer w ++ out; _indent := _indent w |}.

(** The internal type tag of the field called [field_name]. *)
Definition tag_of (model : Model) (field_name : string) : string :=
  match find_field (get_model_fields model) field_name with
  | Some f => get_internal_type f
  | None => ""
  end.

(** One field line of a message block at depth [i]. *)
Definition field_line (i : Z) (proto_type field_name : string) (number : Z) : string :=
  pad i ++ proto_type ++ " " ++ field_name ++ " = " ++ str_int number ++ ";" ++ newline.

(** The field lines of the names [field_names], the first of them numbered
    [first]. *)
Fixpoint field_lines (i : Z) (model : Model) (field_names : list string) (first : Z)
  : string :=
  match field_names with
  | [] => ""
  | n :: rest =>
      field_line i (map_type (tag_of model n)) n first
      ++ field_lines i model rest (first + 1)
  end.

(** One line for each position of [field_names]: the name at position [k],
    counted from 1, with the number [k]. *)
Definition numbered_lines (i : Z) (model : Model) (field_names : list string) : string :=
  flat (map (fun k => field_line i (map_type (tag_of model (nth (k - 1) field_names "")))
                        (nth (k - 1) field_names "") (Z.of_nat k))
          (seq 1 (length field_names))).

(** A message block written at depth [i]. *)
Definition message_block (i : Z) (model : Model) (message_name : string)
    (field_names : list string) : string :=
  pad i ++ "message " ++ message_name ++ " {" ++ newline
  ++ field_lines (i + 1) model field_names 1
  ++ pad i ++ "}" ++ newline
  ++ pad i ++ newline.

(** The first binding among alternatives tried in order. *)
Definition or_else {A} (o1 o2 : option A) : option A :=
  match o1 with
  | Some a => Some a
  | None => o2
  end.

(** The keys in the order of their first occurrence. *)
Definition add_key (acc : list string) (k : string) : list string :=
  if Dict.mem k acc then acc else acc ++ [k].

Definition first_occurrences (ks : list string) : list string :=
  fold_left add_key ks [].

(** ** Sample registry *)


Definition Book : Model :=
  {| __name__ := "Book";
     is_abstract_model := false;
     get_model_fields :=
       [ {| name := "id"; get_internal_type := "AutoField" |};
         {| name := "title"; get_internal_type := "CharField" |};
         {| name := "price"; get_internal_type := "DecimalField" |} ];
     pk_name := "id";
     _meta_grpc_methods := None;
     _meta_grpc_messages := None |}.

(** An abstract model whose message override names a field it does not
    have. *)
Definition Timestamped : Model :=
  {| __name__ := "Timestamped";
     is_abstract_model := true;
     get_model_fields := [ {| name := "created"; get_internal_type := "DateTimeField" |} ];
     pk_name := "id";
     _meta_grpc_methods := None;
     _meta_grpc_messages := Some [ ("TimestampedRequest", FieldNames ["modified"]) ] |}.

(** A concrete model with no method and an override that names a field it
    does not have. *)
Definition Shelf : Model :=
  {| __name__ := "Shelf";
     is_abstract_model := false;
     get_model_fields := [ {| name := "id"; get_internal_type := "AutoField" |};
                           {| name := "room"; get_internal_type := "JSONField" |} ];
     pk_name := "id";
     _meta_grpc_methods := Some [];
     _meta_grpc_messages := Some [ ("ShelfRequest", FieldNames ["id"; "floor"]) ] |}.

Definition library : Registry :=
  [ ("library", [Timestamped; Book]); ("storage", [Shelf]) ].

(** Five mixins that all call their default method [Do]; each answers with
    a message named after itself. *)
Definition do_mixin (who : string) : Mixin :=
  {| get_default_method := fun _ =>
       [ ("Do", {| request := Some {| is_stream := None; message := Some who |};
                   response := None |}) ];
     get_default_message := default_message who |}.

Definition do_mixins : Mixins :=
  {| ListModelMixin := do_mixin "List";
     CreateModelMixin := do_mixin "Create";
     RetrieveModelMixin := do_mixin "Retrieve";
     UpdateModelMixin := do_mixin "Update";
     DestroyModelMixin := do_mixin "Destroy" |}.

(** The generator of the whole application [library]. *)
Definition library_generator : ModelProtoGenerator :=
  {| model_name := None; app_name := "library"; models := [Timestamped; Book];
     _writer := new_writer |}.

(** The document of [library_generator]. *)
Definition library_proto : string :=
  Eval vm_compute in
    match fst (get_proto spec_mixins library_generator) with
    | inr code => code
    | inl _ => ""
    end.

(** ** What a piece of code appends *)

(** Run at depth [i] on any buffer, [c] ends with [r], has appended [out] to
    the buffer and has left the depth at [i]. *)
Definition emits {A} (c : Code A) (i : Z) (r : Exception + A) (out : string) : Prop :=
  forall b, c {| buffer := b; _indent := i |}
            = (r, {| buffer := b ++ out; _indent := i |}).

(** [c] appends, and what it appends and how it ends depend on the depth
    alone. *)
Definition framed {A} (c : Code A) : Prop :=
  forall i, exists r out, emits c i r out.

(** [self] with the models [ms] in scope. *)
Definition with_models (self : ModelProtoGenerator) (ms : list Model) : ModelProtoGenerator :=
  {| model_name := model_name self; app_name := app_name self; models := ms;
     _writer := _writer self |}.

(** [c] raises at every depth. *)
Definition fails {A} (c : Code A) : Prop :=
  forall i, exists e out, emits c i (inl e) out.

(** The generator of the whole application [storage]. *)
Definition storage_generator : ModelProtoGenerator :=
  {| model_name := None; app_name := "storage"; models := [Shelf];
     _writer := new_writer |}.

(** ** Closed forms of the service blocks and of the document *)

Fixpoint spaces (n : nat) : string :=
  match n with
  | O => ""
  | S n' => String " " (spaces n')
  end.

(** The line of one method of a service block. *)
Definition rpc_line (i : Z) (model : Model) (item : string * MethodData) : string :=
  pad i ++ "rpc " ++ fst item ++ "("
  ++ construct_method_message (get_or (request (snd item)) empty_info) model
  ++ ") returns ("
  ++ construct_method_message (get_or (response (snd item)) empty_info) model
  ++ ") {}" ++ newline.

(** The service block of a model with the methods [methods] at depth [i]:
    nothing when there is no method. *)
Definition service_block (i : Z) (model : Model) (methods : Dict.t MethodData) : string :=
  match methods with
  | [] => ""
  | _ :: _ =>
      pad i ++ "service " ++ __name__ model ++ "Controller {" ++ newline
      ++ flat (map (rpc_line (i + 1) model) methods)
      ++ pad i ++ "}" ++ newline
      ++ pad i ++ newline
  end.

(** The message blocks of a model, one for each entry of [messages]. *)
Definition message_blocks (i : Z) (model : Model) (messages : Dict.t FieldsSpec) : string :=
  flat (map (fun item => message_block i model (fst item) (expand_fields model (snd item)))
          messages).

(** The six lines every document starts with. *)
Definition header (i : Z) (self : ModelProtoGenerator) : string :=
  pad i ++ "syntax = " ++ dquote ++ "proto3" ++ dquote ++ ";" ++ newline
  ++ pad i ++ newline
  ++ pad i ++ "package "
  ++ (if truthy (app_name self) then app_name self else get_or (model_name self) "None")
  ++ ";" ++ newline
  ++ pad i ++ newline
  ++ pad i ++ "import " ++ dquote ++ "google/protobuf/empty.proto" ++ dquote ++ ";" ++ newline
  ++ pad i ++ newline.

(** The models of a scope that are not abstract. *)
Definition concrete (ms : list Model) : list Model :=
  filter (fun m => negb (is_abstract_model m)) ms.

(** The header, then the service blocks of the concrete models, then their
    message blocks. *)
Definition document (mx : Mixins) (i : Z) (self : ModelProtoGenerator) : string :=
  header i self
  ++ flat (map (fun m => service_block i m (grpc_methods_of mx m)) (concrete (models self)))
  ++ flat (map (fun m => message_blocks i m (grpc_messages_of mx m)) (concrete (models self))).

Definition has_field (model : Model) (field_name : string) : bool :=
  match find_field (get_model_fields model) field_name with
  | Some _ => true
  | None => false
  end.

(** Every field name of the message set of [model] is a field of [model]. *)
Definition message_fields_exist (mx : Mixins) (model : Model) : bool :=
  forallb (fun item => forallb (has_field model) (expand_fields model (snd item)))
    (grpc_messages_of mx model).

Definition scope_fields_exist (mx : Mixins) (self : ModelProtoGenerator) : bool :=
  forallb (message_fields_exist mx) (concrete (models self)).

(** [e] is the exception of a field name that the message set of a concrete
    model of the scope has and the model has not. *)
Definition unknown_field_of (mx : Mixins) (self : ModelProtoGenerator) (e : Exception) : Prop :=
  exists m msg spec n,
    In m (models self) /\ is_abstract_model m = false
    /\ In (msg, spec) (grpc_messages_of mx m)
    /\ In n (expand_fields m spec)
    /\ find_field (get_model_fields m) n = None
    /\ e = FieldDoesNotExist (__name__ m) n.

(** Every exception [c] can raise satisfies [P]. *)
Definition raises_only {A} (P : Exception -> Prop) (c : Code A) : Prop :=
  forall w e w', c w = (inl e, w') -> P e.

(** Mixins whose default message is named after the model alone. *)
Definition plain_mixin : Mixin :=
  {| get_default_method := fun _ => [];
     get_default_message := fun model_name fields => [ (model_name, get_or fields AllFields) ] |}.

Definition plain_mixins : Mixins :=
  {| ListModelMixin := plain_mixin;
     CreateModelMixin := plain_mixin;
     RetrieveModelMixin := plain_mixin;
     UpdateModelMixin := plain_mixin;
     DestroyModelMixin := plain_mixin |}.

(** A concrete model with no method and no message. *)
Definition Note : Model :=
  {| __name__ := "Note";
     is_abstract_model := false;
     get_model_fields := [ {| name := "id"; get_internal_type := "AutoField" |} ];
     pk_name := "id";
     _meta_grpc_methods := Some [];
     _meta_grpc_messages := Some [] |}.

(** A generator for the single model [Note], with no application name. *)
Definition note_generator : ModelProtoGenerator :=
  {| model_name := Some "Note"; app_name := ""; models := [Timestamped; Note];
     _writer := new_writer |}.

(** * Properties *)

(** ** Strings *)

Lemma append_nil_r (s : string) : s ++ "" = s.
Proof. induction s as [|c s IH]; simpl; [reflexivity | now rewrite IH]. Qed.

Lemma append_assoc (s1 s2 s3 : string) : (s1 ++ s2) ++ s3 = s1 ++ s2 ++ s3.
Proof. induction s1 as [|c s1 IH]; simpl; [reflexivity | now rewrite IH]. Qed.

Lemma append_inj_l (p s1 s2 : string) : p ++ s1 = p ++ s2 -> s1 = s2.
Proof.
  induction p as [|c p IH]; simpl; intros H; [exact H|].
  injection H as H. auto.
Qed.

Lemma append_eq_self (s out : string) : s = s ++ out -> out = "".
Proof.
  intros H. apply (append_inj_l s). now rewrite append_nil_r.
Qed.

Lemma write_indent_app (n : nat) (b s : string) :
  write_indent n (b ++ s) = b ++ write_indent n s.
Proof.
  revert s. induction n as [|n IH]; intros s; simpl; [reflexivity|].
  now rewrite append_assoc, IH.
Qed.

Lemma to_int_not_nil (z : Z) : Z.to_int z <> Decimal.Pos Decimal.Nil /\ Z.to_int z <> Decimal.Neg Decimal.Nil.
Proof.
  destruct z as [|p|p]; simpl; split; try discriminate;
    intros H; injection H as H; exact (DecimalPos.Unsigned.to_uint_nonnil p H).
Qed.

Lemma str_int_inj (a b : Z) : str_int a = str_int b -> a = b.
Proof.
  unfold str_int. intros H.
  apply (f_equal NilZero.int_of_string) in H.
  destruct (to_int_not_nil a) as [Ha1 Ha2], (to_int_not_nil b) as [Hb1 Hb2].
  rewrite !NilZero.isi in H by assumption.
  injection H as H.
  apply (f_equal Z.of_int) in H.
  now rewrite !DecimalZ.of_to in H.
Qed.

(** ** The writer *)

Lemma write_line_eq (line b : string) (i : Z) :
  write_line line {| buffer := b; _indent := i |}
  = (inr tt, {| buffer := b ++ pad i ++ line ++ newline; _indent := i |}).
Proof.
  unfold write_line, pad. simpl.
  rewrite <- (append_nil_r b) at 1.
  now rewrite write_indent_app, append_assoc.
Qed.

Lemma emits_ret {A} (a : A) (i : Z) : emits (ret a) i (inr a) "".
Proof. intros b. unfold ret. now rewrite append_nil_r. Qed.

Lemma emits_lift {A} (r : Exception + A) (i : Z) : emits (lift r) i r "".
Proof. intros b. unfold lift. now rewrite append_nil_r. Qed.

Lemma emits_write_line (line : string) (i : Z) :
  emits (write_line line) i (inr tt) (pad i ++ line ++ newline).
Proof. intros b. apply write_line_eq. Qed.

Lemma emits_bind {A B} (c : Code A) (k : A -> Code B) i a o1 r o2 :
  emits c i (inr a) o1 -> emits (k a) i r o2 -> emits (bind c k) i r (o1 ++ o2).
Proof.
  intros Hc Hk b. unfold bind. rewrite Hc, Hk. now rewrite append_assoc.
Qed.

Lemma emits_bind_raise {A B} (c : Code A) (k : A -> Code B) i e o :
  emits c i (inl e) o -> emits (bind c k) i (inl e) o.
Proof. intros Hc b. unfold bind. now rewrite Hc. Qed.

Lemma emits_with_indent {A} (body : Code A) i r o :
  emits body (i + 1) r o -> emits (with_indent body) i r o.
Proof.
  intros Hb b. unfold with_indent, __enter__, __exit__. simpl.
  rewrite Hb. simpl. now rewrite Z.add_simpl_r.
Qed.

Lemma emits_fun {A} (c : Code A) i r1 o1 r2 o2 :
  emits c i r1 o1 -> emits c i r2 o2 -> r1 = r2 /\ o1 = o2.
Proof.
  intros H1 H2. specialize (H1 ""). specialize (H2 ""). rewrite H1 in H2.
  injection H2 as Hr Ho. auto.
Qed.

Lemma emits_for_each {A} (xs : list A) (body : A -> Code unit) (out : A -> string) i :
  (forall x, In x xs -> emits (body x) i (inr tt) (out x)) ->
  emits (for_each xs body) i (inr tt) (flat (map out xs)).
Proof.
  induction xs as [|x xs IH]; intros H; simpl.
  - apply emits_ret.
  - apply emits_bind with (a := tt).
    + apply H. now left.
    + apply IH. intros y Hy. apply H. now right.
Qed.

Lemma framed_ret {A} (a : A) : framed (ret a).
Proof. intros i. eexists _, _. apply emits_ret. Qed.

Lemma framed_lift {A} (r : Exception + A) : framed (lift r).
Proof. intros i. eexists _, _. apply emits_lift. Qed.

Lemma framed_write_line (line : string) : framed (write_line line).
Proof. intros i. eexists _, _. apply emits_write_line. Qed.

Lemma framed_bind {A B} (c : Code A) (k : A -> Code B) :
  framed c -> (forall a, framed (k a)) -> framed (bind c k).
Proof.
  intros Hc Hk i. destruct (Hc i) as ([e|a] & o1 & H1).
  - eexists _, _. apply emits_bind_raise, H1.
  - destruct (Hk a i) as (r & o2 & H2). eexists _, _.
    eapply emits_bind; eassumption.
Qed.

Lemma framed_with_indent {A} (body : Code A) : framed body -> framed (with_indent body).
Proof.
  intros Hb i. destruct (Hb (i + 1)) as (r & o & H). eexists _, _.
  apply emits_with_indent, H.
Qed.

Lemma framed_for_each {A} (xs : list A) (body : A -> Code unit) :
  (forall x, framed (body x)) -> framed (for_each xs body).
Proof.
  intros Hb. induction xs as [|x xs IH]; simpl.
  - apply framed_ret.
  - apply framed_bind; auto.
Qed.

Create HintDb framed.

#[local] Hint Resolve framed_ret framed_lift framed_write_line framed_bind
  framed_with_indent framed_for_each : framed.

Lemma framed_write_message_fields model names number :
  framed (write_message_fields model names number).
Proof.
  revert number. induction names as [|n names IH]; intros number; simpl;
    auto 10 with framed.
Qed.

Lemma framed_write_message model item : framed (write_message model item).
Proof.
  destruct item as [n spec]. unfold write_message.
  pose proof framed_write_message_fields. auto 10 with framed.
Qed.

Lemma framed_write_rpc model item : framed (write_rpc model item).
Proof. destruct item as [n d]. unfold write_rpc. auto with framed. Qed.

Lemma framed_generate_service mx model : framed (_generate_service mx model).
Proof.
  unfold _generate_service. pose proof framed_write_rpc.
  destruct (grpc_methods_of mx model); auto 10 with framed.
Qed.

Lemma framed_generate_message mx model : framed (_generate_message mx model).
Proof.
  unfold _generate_message. pose proof framed_write_message.
  destruct (grpc_messages_of mx model); auto 10 with framed.
Qed.

Lemma framed_write_proto mx self : framed (write_proto mx self).
Proof.
  unfold write_proto.
  repeat (apply framed_bind; [apply framed_write_line | intros _]).
  apply framed_bind; [|intros _]; apply framed_for_each; intros m;
    destruct (is_abstract_model m);
    auto using framed_generate_service, framed_generate_message with framed.
Qed.

(** ** get_proto *)

Lemma get_proto_emits mx self r out :
  emits (write_proto mx self) (_indent (_writer self)) r out ->
  get_proto mx self
  = (match r with
     | inr _ => inr (buffer (_writer self) ++ out)
     | inl e => inl e
     end,
     {| model_name := model_name self; app_name := app_name self;
        models := models self; _writer := emit (_writer self) out |}).
Proof.
  intros H. unfold get_proto, get_proto_code, bind, get_code, emit.
  destruct (_writer self) as [b i]. simpl in *. rewrite H.
  now destruct r.
Qed.

Lemma init_writer apps app mn g :
  __init__ apps app mn = inr g -> _writer g = new_writer.
Proof.
  unfold __init__. intros H.
  destruct (if match mn with Some n => truthy n | None => false end
            then _ else _) as [e|ms]; [discriminate|].
  now injection H as <-.
Qed.

Lemma get_proto_again mx g code :
  _writer g = new_writer ->
  fst (get_proto mx g) = inr code ->
  fst (get_proto mx (snd (get_proto mx g))) = inr (code ++ code).
Proof.
  intros Hw Hcode.
  destruct (framed_write_proto mx g (_indent (_writer g))) as (r & out & Hout).
  rewrite (get_proto_emits _ _ _ _ Hout) in *. simpl in *.
  rewrite Hw in *. unfold emit in *. simpl in *.
  destruct r as [e|[]]; [discriminate|]. injection Hcode as <-.
  set (g1 := {| model_name := _ |}).
  assert (Hout1 : emits (write_proto mx g1) (_indent (_writer g1)) (inr tt) out)
    by exact Hout.
  now rewrite (get_proto_emits _ _ _ _ Hout1).
Qed.

(** C1 (as amended). For a fixed registry, the generators constructed for one
    configuration all return the same text from their first [get_proto]; the
    writer is made by the constructor and kept by the generator, so a second
    [get_proto] on the same generator returns the text of the first call
    followed by a second copy of it. *)
Theorem get_proto_once_per_generator mx apps app mn g code :
  __init__ apps app mn = inr g ->
  fst (get_proto mx g) = inr code ->
  (forall g', __init__ apps app mn = inr g' -> fst (get_proto mx g') = inr code)
  /\ fst (get_proto mx (snd (get_proto mx g))) = inr (code ++ code).
Proof.
  intros Hinit Hcode. split.
  - intros g' Hg'. rewrite Hinit in Hg'. now injection Hg' as <-.
  - apply get_proto_again; [|exact Hcode]. eapply init_writer, Hinit.
Qed.

Lemma get_proto_once_per_generator_witness :
  fst (get_proto spec_mixins (snd (get_proto spec_mixins library_generator)))
  = inr (library_proto ++ library_proto).
Proof.
  apply (get_proto_once_per_generator spec_mixins library "library" None
           library_generator library_proto); reflexivity.
Defined.

(** C1 (as stated) fails: the second [get_proto] of one generator does not
    return the text of the first. *)
Lemma get_proto_twice_differs :
  __init__ library "library" None = inr library_generator
  /\ fst (get_proto spec_mixins (snd (get_proto spec_mixins library_generator)))
     <> fst (get_proto spec_mixins library_generator).
Proof.
  split; [reflexivity|].
  assert (H1 : fst (get_proto spec_mixins library_generator) = inr library_proto)
    by reflexivity.
  rewrite (get_proto_again spec_mixins library_generator library_proto eq_refl H1), H1.
  assert (Hne : library_proto <> "") by discriminate.
  revert Hne. generalize library_proto. intros s Hne H.
  injection H as H. symmetry in H. apply append_eq_self in H. contradiction.
Qed.

(** ** Loops over the models *)

Lemma for_each_remove {A} (body : A -> Code unit) (pre : list A) (x : A) (post : list A) :
  (forall w, body x w = (inr tt, w)) ->
  forall w, for_each (pre ++ x :: post)%list body w = for_each (pre ++ post)%list body w.
Proof.
  intros Hx. induction pre as [|y pre IH]; intros w; simpl.
  - unfold bind. now rewrite Hx.
  - unfold bind. destruct (body y w) as [[e|[]] w']; [reflexivity | apply IH].
Qed.

Lemma bind_ext {A B} (c1 c2 : Code A) (k1 k2 : A -> Code B) (w : _CodeWriter) :
  c1 w = c2 w -> (forall a w', k1 a w' = k2 a w') -> bind c1 k1 w = bind c2 k2 w.
Proof.
  intros Hc Hk. unfold bind. rewrite Hc.
  destruct (c2 w) as [[e|a] w']; [reflexivity | apply Hk].
Qed.

Lemma write_proto_remove mx self pre m post :
  models self = (pre ++ m :: post)%list ->
  (forall w, (if is_abstract_model m then ret tt else _generate_service mx m) w
             = (inr tt, w)) ->
  (forall w, (if is_abstract_model m then ret tt else _generate_message mx m) w
             = (inr tt, w)) ->
  forall w, write_proto mx self w = write_proto mx (with_models self (pre ++ post)%list) w.
Proof.
  intros Hms Hs Hm w. unfold write_proto, service_pass, message_pass. simpl.
  rewrite Hms.
  do 6 (apply bind_ext; [reflexivity | clear w; intros _ w]).
  apply bind_ext.
  - apply (for_each_remove _ pre m post Hs).
  - intros _ w'. apply (for_each_remove _ pre m post Hm).
Qed.

(** C8. An abstract model of the scope is passed over by both loops of
    [get_proto]: the call returns the same text (or raises the same
    exception) and leaves the same writer as it does with that model taken
    out of the scope, so no service and no message block is written for
    it. *)
Theorem abstract_model_skipped mx self pre m post :
  is_abstract_model m = true ->
  models self = (pre ++ m :: post)%list ->
  fst (get_proto mx self) = fst (get_proto mx (with_models self (pre ++ post)%list))
  /\ _writer (snd (get_proto mx self))
     = _writer (snd (get_proto mx (with_models self (pre ++ post)%list))).
Proof.
  intros Habs Hms.
  assert (H : forall w, write_proto mx self w
                        = write_proto mx (with_models self (pre ++ post)%list) w).
  { apply (write_proto_remove mx self pre m post Hms); rewrite Habs; reflexivity. }
  unfold get_proto, get_proto_code, bind. simpl. rewrite H.
  destruct (write_proto mx (with_models self (pre ++ post)%list) (_writer self))
    as [[e|[]] w']; simpl; auto.
Qed.

Lemma abstract_model_skipped_witness :
  fst (get_proto spec_mixins library_generator)
  = fst (get_proto spec_mixins (with_models library_generator [Book])).
Proof.
  exact (proj1 (abstract_model_skipped spec_mixins library_generator
                  [] Timestamped [Book] eq_refl eq_refl)).
Defined.

(** C9. A model whose method set, overridden or default, is empty gets no
    service block: [_generate_service] leaves the writer as it found it, and
    the service loop of [get_proto] writes what it writes without that
    model. *)
Theorem empty_methods_no_service mx m :
  grpc_methods_of mx m = [] ->
  (forall w, _generate_service mx m w = (inr tt, w))
  /\ (forall pre post w,
        service_pass mx (pre ++ m :: post)%list w = service_pass mx (pre ++ post)%list w).
Proof.
  intros Hempty.
  assert (H : forall w, _generate_service mx m w = (inr tt, w)).
  { intros w. unfold _generate_service. now rewrite Hempty. }
  split; [exact H|].
  intros pre post w. unfold service_pass. apply for_each_remove.
  intros w'. destruct (is_abstract_model m); [reflexivity | apply H].
Qed.

Lemma empty_methods_no_service_witness :
  _generate_service spec_mixins Shelf new_writer = (inr tt, new_writer).
Proof.
  exact (proj1 (empty_methods_no_service spec_mixins Shelf eq_refl) new_writer).
Defined.

(** ** Failure *)

Lemma fails_bind_l {A B} (c : Code A) (k : A -> Code B) : fails c -> fails (bind c k).
Proof.
  intros Hc i. destruct (Hc i) as (e & out & H). exists e, out.
  apply emits_bind_raise, H.
Qed.

Lemma fails_bind_r {A B} (c : Code A) (k : A -> Code B) :
  framed c -> (forall a, fails (k a)) -> fails (bind c k).
Proof.
  intros Hc Hk i. destruct (Hc i) as ([e|a] & o1 & H1).
  - exists e, o1. apply emits_bind_raise, H1.
  - destruct (Hk a i) as (e & o2 & H2). exists e, (o1 ++ o2).
    eapply emits_bind; eassumption.
Qed.

Lemma fails_with_indent {A} (body : Code A) : fails body -> fails (with_indent body).
Proof.
  intros Hb i. destruct (Hb (i + 1)) as (e & o & H). exists e, o.
  apply emits_with_indent, H.
Qed.

Lemma fails_for_each {A} (xs : list A) (body : A -> Code unit) (x : A) :
  (forall y, framed (body y)) -> In x xs -> fails (body x) -> fails (for_each xs body).
Proof.
  intros Hb Hin Hx. induction xs as [|y xs IH]; [contradiction|]. simpl.
  destruct Hin as [->|Hin].
  - apply fails_bind_l, Hx.
  - apply fails_bind_r; [apply Hb | intros _; apply IH, Hin].
Qed.

Lemma fails_write_message_fields model names fname number :
  In fname names ->
  find_field (get_model_fields model) fname = None ->
  fails (write_message_fields model names number).
Proof.
  intros Hin Hnone. revert number.
  induction names as [|n names IH]; intros number; [contradiction|]. simpl.
  destruct Hin as [->|Hin].
  - apply fails_bind_l. intros i. unfold get_field. rewrite Hnone.
    eexists _, _. apply emits_lift.
  - apply fails_bind_r; [apply framed_lift|]. intros f.
    apply fails_bind_r; [apply framed_write_line|]. intros _. apply IH, Hin.
Qed.

Lemma fails_generate_message mx m msg names fname :
  In (msg, FieldNames names) (grpc_messages_of mx m) ->
  In fname names ->
  find_field (get_model_fields m) fname = None ->
  fails (_generate_message mx m).
Proof.
  intros Hmsg Hin Hnone. unfold _generate_message.
  destruct (grpc_messages_of mx m) as [|item items] eqn:E; [contradiction|].
  apply (fails_for_each _ _ (msg, FieldNames names));
    [apply framed_write_message | exact Hmsg |].
  unfold write_message.
  apply fails_bind_r; [apply framed_write_line|]. intros _.
  apply fails_bind_l, fails_with_indent.
  eapply fails_write_message_fields; eassumption.
Qed.

(** C2. When the message set of a model, overridden or default, names a
    field the model does not have, [_generate_message] raises for that
    model, and [get_proto] of a generator with that model among the concrete
    models of its scope raises: the caller gets the exception and no
    text. *)
Theorem unknown_field_fails mx m msg names fname :
  In (msg, FieldNames names) (grpc_messages_of mx m) ->
  In fname names ->
  find_field (get_model_fields m) fname = None ->
  (forall w, exists e w', _generate_message mx m w = (inl e, w'))
  /\ (forall self, In m (models self) -> is_abstract_model m = false ->
        exists e, fst (get_proto mx self) = inl e).
Proof.
  intros Hmsg Hin Hnone.
  pose proof (fails_generate_message mx m msg names fname Hmsg Hin Hnone) as Hfail.
  split.
  - intros [b i]. destruct (Hfail i) as (e & out & H). exists e. eexists. apply H.
  - intros self Hm Hconcrete.
    assert (Hw : fails (write_proto mx self)).
    { unfold write_proto.
      repeat (apply fails_bind_r; [apply framed_write_line | intros _]).
      apply fails_bind_r.
      - apply framed_for_each. intros m'. destruct (is_abstract_model m');
          auto using framed_generate_service with framed.
      - intros _. apply (fails_for_each _ _ m); [|exact Hm|].
        + intros m'. destruct (is_abstract_model m');
            auto using framed_generate_message with framed.
        + now rewrite Hconcrete. }
    destruct (Hw (_indent (_writer self))) as (e & out & H).
    exists e. now rewrite (get_proto_emits _ _ _ _ H).
Qed.

Lemma unknown_field_fails_witness :
  exists e, fst (get_proto spec_mixins storage_generator) = inl e.
Proof.
  apply (proj2 (unknown_field_fails spec_mixins Shelf "ShelfRequest" ["id"; "floor"] "floor"
                  (or_introl eq_refl) (or_intror (or_introl eq_refl)) eq_refl)
           storage_generator (or_introl eq_refl) eq_refl).
Defined.

(** ** Dictionaries *)

Lemma eqb_append_l (p a b : string) : String.eqb (p ++ a) (p ++ b) = String.eqb a b.
Proof.
  induction p as [|c p IH]; simpl; [reflexivity|].
  now rewrite Ascii.eqb_refl.
Qed.

Lemma get_in_values {V} (d : Dict.t V) k v : Dict.get d k = Some v -> In v (map snd d).
Proof.
  induction d as [|[k' v'] d IH]; simpl; [discriminate|].
  destruct (String.eqb k' k); [intros [= ->]; now left | right; auto].
Qed.

Lemma get_not_mem {V} (d : Dict.t V) k :
  Dict.mem k (Dict.keys d) = false -> Dict.get d k = None.
Proof.
  induction d as [|[k' v'] d IH]; simpl; [reflexivity|].
  destruct (String.eqb k' k); simpl; [discriminate | exact IH].
Qed.

Lemma get_not_in {V} (d : Dict.t V) k : ~ In k (Dict.keys d) -> Dict.get d k = None.
Proof.
  induction d as [|[k' v'] d IH]; simpl; [reflexivity|]. intros H.
  destruct (String.eqb_spec k' k) as [->|Hne]; [exfalso; auto | apply IH; auto].
Qed.

Lemma get_set {V} (d : Dict.t V) k v k' :
  Dict.get (Dict.set d k v) k' = if String.eqb k k' then Some v else Dict.get d k'.
Proof.
  induction d as [|[k0 v0] d IH]; simpl; [reflexivity|].
  destruct (String.eqb_spec k0 k) as [->|Hne]; simpl.
  - now destruct (String.eqb k k').
  - rewrite IH. destruct (String.eqb_spec k0 k') as [->|Hne'];
      [|reflexivity].
    destruct (String.eqb_spec k k') as [->|_]; [contradiction | reflexivity].
Qed.

Lemma get_update {V} (d e : Dict.t V) k :
  Dict.wf e = true ->
  Dict.get (Dict.update d e) k = or_else (Dict.get e k) (Dict.get d k).
Proof.
  unfold Dict.update, Dict.wf. revert d.
  induction e as [|[k0 v0] e IH]; intros d Hwf; simpl in *; [reflexivity|].
  apply andb_prop in Hwf as [Hk0 Hwf]. apply negb_true_iff in Hk0.
  rewrite (IH _ Hwf), get_set.
  destruct (String.eqb_spec k0 k) as [->|_]; [|reflexivity].
  now rewrite (get_not_mem e k Hk0).
Qed.

Lemma keys_set {V} (d : Dict.t V) k v :
  Dict.keys (Dict.set d k v) = add_key (Dict.keys d) k.
Proof.
  unfold add_key. induction d as [|[k0 v0] d IH]; simpl; [reflexivity|].
  destruct (String.eqb k0 k); simpl; [reflexivity|].
  rewrite IH. now destruct (Dict.mem k (Dict.keys d)).
Qed.

Lemma keys_update {V} (d e : Dict.t V) :
  Dict.keys (Dict.update d e) = fold_left add_key (Dict.keys e) (Dict.keys d).
Proof.
  unfold Dict.update. revert d.
  induction e as [|[k0 v0] e IH]; intros d; simpl; [reflexivity|].
  now rewrite IH, keys_set.
Qed.

(** ** The type mapper *)

(** C3. [type_mapping.get(tag, 'string')] is defined on every tag and its
    value is a proto scalar type; the tags of the table map as the table
    says, and a tag outside the table maps to [string]. *)
Theorem map_type_total :
  (forall tag, In (map_type tag) ["int32"; "int64"; "float"; "bool"; "string"])
  /\ (forall tag, ~ In tag (Dict.keys type_mapping) -> map_type tag = "string")
  /\ Forall (fun tag => map_type tag = "int32")
        ["AutoField"; "SmallIntegerField"; "IntegerField";
         "PositiveSmallIntegerField"; "PositiveIntegerField"]
  /\ map_type "BigIntegerField" = "int64"
  /\ map_type "FloatField" = "float"
  /\ map_type "DecimalField" = "string"
  /\ Forall (fun tag => map_type tag = "bool") ["BooleanField"; "NullBooleanField"]
  /\ Forall (fun tag => map_type tag = "string")
        ["DateField"; "TimeField"; "DateTimeField"; "DurationField"]
  /\ Forall (fun tag => map_type tag = "string")
        ["CharField"; "TextField"; "EmailField"; "SlugField"; "URLField"; "UUIDField";
         "GenericIPAddressField"; "FilePathField"; "Field"].
Proof.
  split; [|split].
  - intros tag. unfold map_type.
    destruct (Dict.get type_mapping tag) as [v|] eqn:E; simpl; [|tauto].
    apply get_in_values in E. simpl in E.
    repeat (destruct E as [<-|E]; [simpl; tauto|]). contradiction.
  - intros tag H. unfold map_type. now rewrite (get_not_in _ _ H).
  - repeat split; repeat constructor.
Qed.

Lemma map_type_total_witness :
  map_type "JSONField" = "string".
Proof.
  apply (proj1 (proj2 map_type_total) "JSONField").
  simpl. intros H. repeat (destruct H as [H|H]; [discriminate H|]). exact H.
Defined.

(** ** Services *)

(** C10. The parameter or return value of an rpc is the prefix [stream ]
    when the key [is_stream] is there and true, and nothing when it is false
    or absent, followed by the value of the key [message] or, when the key
    is absent, by the name of the model; the rpc line renders its request
    and its response with this one function, an absent request or response
    being the empty spec. *)
Theorem construct_method_message_spec (model : Model) :
  (forall flag msg,
     construct_method_message {| is_stream := flag; message := msg |} model
     = match flag with Some true => "stream " | _ => "" end
       ++ match msg with Some n => n | None => __name__ model end)
  /\ (forall method_name req resp i,
        emits (write_rpc model (method_name, {| request := req; response := resp |}))
          i (inr tt)
          (pad i ++ ("rpc " ++ method_name ++ "("
                     ++ construct_method_message
                          (match req with Some info => info | None => empty_info end) model
                     ++ ") returns ("
                     ++ construct_method_message
                          (match resp with Some info => info | None => empty_info end) model
                     ++ ") {}") ++ newline)).
Proof.
  split.
  - intros [[|]|] [n|]; reflexivity.
  - intros method_name req resp i. unfold write_rpc. apply emits_write_line.
Qed.

(** ** Default sets *)

(** C4. With the default messages of the mixins as the spec gives them, the
    message set of a model with no message override is, in this order, the
    Create message with all fields, the List message with all fields, and
    the Retrieve and Destroy messages with the name of the primary key
    alone; there is no Update message in it, and the Update mixin has no
    part in the default message set. *)
Theorem default_messages_asymmetry (model : Model) :
  _meta_grpc_messages model = None ->
  grpc_messages_of spec_mixins model
  = [ (__name__ model ++ "CreateRequest", AllFields);
      (__name__ model ++ "ListRequest", AllFields);
      (__name__ model ++ "RetrieveRequest", FieldNames [pk_name model]);
      (__name__ model ++ "DestroyRequest", FieldNames [pk_name model]) ]
  /\ Dict.get (grpc_messages_of spec_mixins model)
       (__name__ model ++ "UpdateRequest") = None
  /\ (forall mx update,
        get_default_grpc_messages
          {| ListModelMixin := ListModelMixin mx;
             CreateModelMixin := CreateModelMixin mx;
             RetrieveModelMixin := RetrieveModelMixin mx;
             UpdateModelMixin := update;
             DestroyModelMixin := DestroyModelMixin mx |} model
        = get_default_grpc_messages mx model).
Proof.
  intros Hnone. unfold grpc_messages_of. rewrite Hnone. simpl.
  assert (E : get_default_grpc_messages spec_mixins model
              = [ (__name__ model ++ "CreateRequest", AllFields);
                  (__name__ model ++ "ListRequest", AllFields);
                  (__name__ model ++ "RetrieveRequest", FieldNames [pk_name model]);
                  (__name__ model ++ "DestroyRequest", FieldNames [pk_name model]) ]).
  { unfold get_default_grpc_messages, Dict.merge, Dict.update. simpl.
    unfold default_message. simpl.
    repeat (rewrite eqb_append_l; simpl). reflexivity. }
  split; [exact E|]. split; [|reflexivity].
  rewrite E. simpl. repeat (rewrite eqb_append_l; simpl). reflexivity.
Qed.

Lemma default_messages_asymmetry_witness :
  grpc_messages_of spec_mixins Book
  = [ ("BookCreateRequest", AllFields);
      ("BookListRequest", AllFields);
      ("BookRetrieveRequest", FieldNames ["id"]);
      ("BookDestroyRequest", FieldNames ["id"]) ].
Proof.
  exact (proj1 (default_messages_asymmetry Book eq_refl)).
Defined.

Lemma get_merge5 {V} (d1 d2 d3 d4 d5 : Dict.t V) k :
  Dict.wf d1 = true -> Dict.wf d2 = true -> Dict.wf d3 = true ->
  Dict.wf d4 = true -> Dict.wf d5 = true ->
  Dict.get (Dict.merge [d1; d2; d3; d4; d5]) k
  = or_else (Dict.get d5 k)
      (or_else (Dict.get d4 k)
         (or_else (Dict.get d3 k) (or_else (Dict.get d2 k) (Dict.get d1 k)))).
Proof.
  intros H1 H2 H3 H4 H5. unfold Dict.merge. simpl.
  rewrite !get_update by assumption. simpl.
  now destruct (Dict.get d1 k).
Qed.

Lemma keys_merge5 {V} (d1 d2 d3 d4 d5 : Dict.t V) :
  Dict.keys (Dict.merge [d1; d2; d3; d4; d5])
  = first_occurrences
      (Dict.keys d1 ++ Dict.keys d2 ++ Dict.keys d3 ++ Dict.keys d4 ++ Dict.keys d5)%list.
Proof.
  unfold Dict.merge, first_occurrences. simpl.
  rewrite !keys_update, !fold_left_app. reflexivity.
Qed.

(** C5. The method set of a model with no method override is the merge of
    the default methods of the List, Create, Retrieve, Update and Destroy
    mixins, in this order: its method names stand in the order of their
    first occurrence in that sequence, and a method name that several of the
    five define has the descriptor of the last of them. *)
Theorem default_methods_merge_order mx model method_name :
  _meta_grpc_methods model = None ->
  Dict.wf (get_default_method (ListModelMixin mx) (__name__ model)) = true ->
  Dict.wf (get_default_method (CreateModelMixin mx) (__name__ model)) = true ->
  Dict.wf (get_default_method (RetrieveModelMixin mx) (__name__ model)) = true ->
  Dict.wf (get_default_method (UpdateModelMixin mx) (__name__ model)) = true ->
  Dict.wf (get_default_method (DestroyModelMixin mx) (__name__ model)) = true ->
  Dict.get (grpc_methods_of mx model) method_name
  = or_else (Dict.get (get_default_method (DestroyModelMixin mx) (__name__ model)) method_name)
      (or_else (Dict.get (get_default_method (UpdateModelMixin mx) (__name__ model)) method_name)
         (or_else (Dict.get (get_default_method (RetrieveModelMixin mx) (__name__ model)) method_name)
            (or_else (Dict.get (get_default_method (CreateModelMixin mx) (__name__ model)) method_name)
               (Dict.get (get_default_method (ListModelMixin mx) (__name__ model)) method_name))))
  /\ Dict.keys (grpc_methods_of mx model)
     = first_occurrences
         (Dict.keys (get_default_method (ListModelMixin mx) (__name__ model))
          ++ Dict.keys (get_default_method (CreateModelMixin mx) (__name__ model))
          ++ Dict.keys (get_default_method (RetrieveModelMixin mx) (__name__ model))
          ++ Dict.keys (get_default_method (UpdateModelMixin mx) (__name__ model))
          ++ Dict.keys (get_default_method (DestroyModelMixin mx) (__name__ model)))%list.
Proof.
  intros Hnone HL HC HR HU HD.
  unfold grpc_methods_of, get_default_grpc_methods. rewrite Hnone. simpl get_or.
  split.
  - now apply get_merge5.
  - apply keys_merge5.
Qed.

Lemma default_methods_merge_order_witness :
  Dict.get (grpc_methods_of do_mixins Book) "Do"
  = Some {| request := Some {| is_stream := None; message := Some "Destroy" |};
            response := None |}.
Proof.
  exact (proj1 (default_methods_merge_order do_mixins Book "Do"
                  eq_refl eq_refl eq_refl eq_refl eq_refl eq_refl)).
Defined.

(** ** Messages *)

Lemma find_field_name fields n f : find_field fields n = Some f -> name f = n.
Proof.
  induction fields as [|g fields IH]; simpl; [discriminate|].
  destruct (String.eqb_spec (name g) n) as [E|_]; [|exact IH].
  now intros [= <-].
Qed.

Lemma find_field_in fields f : In f fields -> find_field fields (name f) <> None.
Proof.
  induction fields as [|g fields IH]; simpl; [contradiction|]. intros Hin.
  destruct (String.eqb (name g) (name f)) eqn:E; [discriminate|].
  destruct Hin as [->|Hin]; [now rewrite String.eqb_refl in E | auto].
Qed.

Lemma find_field_first fields f :
  NoDup (map name fields) -> In f fields -> find_field fields (name f) = Some f.
Proof.
  induction fields as [|g fields IH]; simpl; [contradiction|].
  intros Hnd Hin. inversion Hnd as [|? ? Hg Hnd']; subst.
  destruct (String.eqb_spec (name g) (name f)) as [E|Hne].
  - destruct Hin as [->|Hin]; [reflexivity|].
    exfalso. apply Hg. rewrite E. now apply in_map.
  - destruct Hin as [->|Hin]; [now elim Hne | auto].
Qed.

Lemma all_fields_exist model n :
  In n (expand_fields model AllFields) -> find_field (get_model_fields model) n <> None.
Proof.
  simpl. intros Hin. apply in_map_iff in Hin as (f & <- & Hf).
  now apply find_field_in.
Qed.

Lemma emits_eq {A} (c : Code A) i r o o' : emits c i r o -> o = o' -> emits c i r o'.
Proof. now intros H <-. Qed.

Ltac same_text := repeat (rewrite !append_assoc || (progress simpl)); reflexivity.

Lemma emits_write_message_fields model names number i :
  (forall n, In n names -> find_field (get_model_fields model) n <> None) ->
  emits (write_message_fields model names number) i (inr tt)
    (field_lines i model names (number + 1)).
Proof.
  revert number. induction names as [|n names IH]; intros number Hall; simpl.
  - apply emits_ret.
  - destruct (find_field (get_model_fields model) n) as [f|] eqn:E;
      [|exfalso; apply (Hall n); [now left | exact E]].
    eapply emits_eq.
    + eapply emits_bind with (a := f).
      { unfold get_field. rewrite E. apply emits_lift. }
      eapply emits_bind with (a := tt); [apply emits_write_line|].
      apply IH. intros n' Hn'. apply Hall. now right.
    + unfold field_line, tag_of. rewrite E, (find_field_name _ _ _ E). same_text.
Qed.

Lemma emits_write_message model msg spec i :
  (forall n, In n (expand_fields model spec) ->
             find_field (get_model_fields model) n <> None) ->
  emits (write_message model (msg, spec)) i (inr tt)
    (message_block i model msg (expand_fields model spec)).
Proof.
  intros Hall. unfold write_message, message_block.
  eapply emits_eq.
  - eapply emits_bind with (a := tt); [apply emits_write_line|].
    eapply emits_bind with (a := tt).
    { apply emits_with_indent.
      apply (emits_write_message_fields model _ 0 (i + 1) Hall). }
    eapply emits_bind with (a := tt); apply emits_write_line.
  - same_text.
Qed.

Lemma run_emits {A} (c : Code A) (w : _CodeWriter) r out :
  emits c (_indent w) r out -> c w = (r, emit w out).
Proof. destruct w as [b i]. intros H. apply H. Qed.

(** C6. A message whose fields are given as [*] is written with one line
    for each field of the model, in the order of the model's field list, and
    a message whose fields are given by name, all of them fields of the
    model, with one line for each name, in the order given; when the field
    names of the model are pairwise different, the line of a field carries
    the type of that field. *)
Theorem message_fields_as_listed model msg w :
  write_message model (msg, AllFields) w
  = (inr tt,
     emit w (message_block (_indent w) model msg (map name (get_model_fields model))))
  /\ (forall names,
        (forall n, In n names -> find_field (get_model_fields model) n <> None) ->
        write_message model (msg, FieldNames names) w
        = (inr tt, emit w (message_block (_indent w) model msg names)))
  /\ (NoDup (map name (get_model_fields model)) ->
      forall f, In f (get_model_fields model) ->
                tag_of model (name f) = get_internal_type f).
Proof.
  split; [|split].
  - apply run_emits.
    apply (emits_write_message model msg AllFields), all_fields_exist.
  - intros names Hall. apply run_emits.
    apply (emits_write_message model msg (FieldNames names)), Hall.
  - intros Hnd f Hf. unfold tag_of. now rewrite (find_field_first _ _ Hnd Hf).
Qed.

Lemma message_fields_as_listed_witness :
  write_message Book ("BookTitle", FieldNames ["title"; "id"]) new_writer
  = (inr tt, emit new_writer (message_block 0 Book "BookTitle" ["title"; "id"]))
  /\ tag_of Book "price" = "DecimalField".
Proof.
  split.
  - apply (proj1 (proj2 (message_fields_as_listed Book "BookTitle" new_writer))).
    intros n [<-|[<-|[]]]; discriminate.
  - apply (proj2 (proj2 (message_fields_as_listed Book "BookTitle" new_writer))
             ltac:(repeat constructor; simpl; intuition discriminate)
             {| name := "price"; get_internal_type := "DecimalField" |}).
    simpl. auto.
Defined.

Lemma field_lines_numbered i model names (s : nat) :
  field_lines i model names (Z.of_nat s)
  = flat (map (fun k => field_line i (map_type (tag_of model (nth (k - s) names "")))
                          (nth (k - s) names "") (Z.of_nat k))
            (seq s (length names))).
Proof.
  revert s. induction names as [|a names IH]; intros s; [reflexivity|].
  cbn [field_lines length seq map flat fold_right].
  rewrite Nat.sub_diag. cbn [nth]. f_equal.
  replace (Z.of_nat s + 1) with (Z.of_nat (S s)) by lia.
  rewrite IH. unfold flat. f_equal. apply map_ext_in.
  intros k Hk. apply in_seq in Hk.
  replace (k - s)%nat with (S (k - S s)) by lia. reflexivity.
Qed.

(** C7. In a message block written for N field names, all of them fields of
    the model, the field line at position k, counted from 1, carries the
    name at position k and the number k, for k from 1 to N; the numbers
    written at two different positions are different texts. *)
Theorem fields_numbered_from_one model msg spec w :
  (forall n, In n (expand_fields model spec) ->
             find_field (get_model_fields model) n <> None) ->
  write_message model (msg, spec) w
  = (inr tt,
     emit w (pad (_indent w) ++ "message " ++ msg ++ " {" ++ newline
             ++ numbered_lines (_indent w + 1) model (expand_fields model spec)
             ++ pad (_indent w) ++ "}" ++ newline
             ++ pad (_indent w) ++ newline))
  /\ (forall j k : nat, j <> k -> str_int (Z.of_nat j) <> str_int (Z.of_nat k)).
Proof.
  intros Hall. split.
  - rewrite (run_emits _ _ _ _ (emits_write_message model msg spec _ Hall)).
    unfold message_block, numbered_lines.
    now rewrite (field_lines_numbered _ model _ 1).
  - intros j k Hjk H. apply str_int_inj in H. lia.
Qed.

Lemma fields_numbered_from_one_witness :
  write_message Book ("BookCreateRequest", AllFields) new_writer
  = (inr tt,
     emit new_writer
       ("message BookCreateRequest {" ++ newline
        ++ "    int32 id = 1;" ++ newline
        ++ "    string title = 2;" ++ newline
        ++ "    string price = 3;" ++ newline
        ++ "}" ++ newline
        ++ newline)).
Proof.
  apply (proj1 (fields_numbered_from_one Book "BookCreateRequest" AllFields new_writer
                  (all_fields_exist Book))).
Defined.

(** * Further properties of the generator *)

(** ** The writer *)

Lemma write_indent_spaces (n : nat) (b : string) :
  write_indent n b = b ++ spaces (4 * n).
Proof.
  revert b. induction n as [|n IH]; intros b.
  - simpl. now rewrite append_nil_r.
  - replace (4 * S n)%nat with (4 + 4 * n)%nat by lia.
    simpl write_indent. rewrite IH, append_assoc. reflexivity.
Qed.

Lemma length_spaces (n : nat) : String.length (spaces n) = n.
Proof. induction n as [|n IH]; simpl; congruence. Qed.

(** X1. [write_line] never raises and never touches the depth; it appends
    four spaces for each level of the depth, the line and a line feed to
    what the buffer holds. A depth of zero or below gives no indentation. *)
Theorem write_line_layout (line : string) (w : _CodeWriter) :
  write_line line w
  = (inr tt,
     {| buffer := buffer w ++ spaces (4 * Z.to_nat (_indent w)) ++ line ++ newline;
        _indent := _indent w |})
  /\ String.length (pad (_indent w)) = (4 * Z.to_nat (_indent w))%nat
  /\ (_indent w <= 0 -> pad (_indent w) = "").
Proof.
  split; [|split].
  - unfold write_line. now rewrite write_indent_spaces, append_assoc.
  - unfold pad. rewrite write_indent_spaces. simpl. apply length_spaces.
  - intros H. unfold pad. destruct (_indent w); try lia; reflexivity.
Qed.

(** X2. [get_proto] only appends: whether it returns or raises, it leaves
    the writer at the depth it found, with the earlier buffer followed by
    the text of this call; the text it returns is the whole buffer, earlier
    content included. *)
Theorem get_proto_appends mx self :
  exists out,
    _writer (snd (get_proto mx self)) = emit (_writer self) out
    /\ (forall code, fst (get_proto mx self) = inr code ->
                     code = buffer (_writer self) ++ out).
Proof.
  destruct (framed_write_proto mx self (_indent (_writer self))) as (r & out & H).
  exists out. rewrite (get_proto_emits _ _ _ _ H). simpl. split; [reflexivity|].
  intros code. destruct r as [e|[]]; [discriminate|]. now intros [= <-].
Qed.

(** ** Services *)

Lemma emits_write_rpc model item i :
  emits (write_rpc model item) i (inr tt) (rpc_line i model item).
Proof.
  destruct item as [method_name method_data]. unfold write_rpc, rpc_line.
  eapply emits_eq; [apply emits_write_line | same_text].
Qed.

Lemma emits_generate_service mx model i :
  emits (_generate_service mx model) i (inr tt)
    (service_block i model (grpc_methods_of mx model)).
Proof.
  unfold _generate_service, service_block.
  destruct (grpc_methods_of mx model) as [|item items]; [apply emits_ret|].
  eapply emits_eq.
  - eapply emits_bind with (a := tt); [apply emits_write_line|].
    eapply emits_bind with (a := tt).
    { apply emits_with_indent.
      apply (emits_for_each (item :: items) (write_rpc model) (rpc_line (i + 1) model)).
      intros x _. apply emits_write_rpc. }
    eapply emits_bind with (a := tt); apply emits_write_line.
  - generalize (flat (map (rpc_line (i + 1) model) (item :: items))). intros lines.
    same_text.
Qed.

(** X3. [_generate_service] never raises. For a model with methods it writes
    the line [service <Model>Controller {], one [rpc] line for each method
    in the order of the method set, one level deeper, the line [}] and an
    empty line; the depth is left as found. *)
Theorem generate_service_block mx model w :
  _generate_service mx model w
  = (inr tt, emit w (service_block (_indent w) model (grpc_methods_of mx model))).
Proof. apply run_emits, emits_generate_service. Qed.

(** ** Documents *)

Lemma has_field_true model n :
  has_field model n = true -> find_field (get_model_fields model) n <> None.
Proof.
  unfold has_field. destruct (find_field (get_model_fields model) n); [discriminate|].
  discriminate.
Qed.

Lemma emits_generate_message mx model i :
  message_fields_exist mx model = true ->
  emits (_generate_message mx model) i (inr tt)
    (message_blocks i model (grpc_messages_of mx model)).
Proof.
  unfold message_fields_exist, _generate_message, message_blocks. intros Hall.
  assert (H : emits (for_each (grpc_messages_of mx model) (write_message model)) i (inr tt)
                (flat (map (fun item => message_block i model (fst item)
                                          (expand_fields model (snd item)))
                         (grpc_messages_of mx model)))).
  { apply emits_for_each. intros [msg spec] Hin. simpl.
    apply emits_write_message. intros n Hn. apply has_field_true.
    rewrite forallb_forall in Hall. specialize (Hall _ Hin). simpl in Hall.
    rewrite forallb_forall in Hall. now apply Hall. }
  destruct (grpc_messages_of mx model); [apply emits_ret | exact H].
Qed.

Lemma emits_concrete_pass (step : Model -> Code unit) (out : Model -> string) ms i :
  (forall m, In m (concrete ms) -> emits (step m) i (inr tt) (out m)) ->
  emits (for_each ms (fun model => if is_abstract_model model then ret tt else step model))
    i (inr tt) (flat (map out (concrete ms))).
Proof.
  induction ms as [|m ms IH]; intros H; simpl.
  - apply emits_ret.
  - unfold concrete in *. simpl in *. destruct (is_abstract_model m); simpl in *.
    + apply (emits_bind _ _ i tt "" (inr tt)); [apply emits_ret | apply IH, H].
    + apply emits_bind with (a := tt).
      * apply H. now left.
      * apply IH. intros m' Hm'. apply H. now right.
Qed.

Lemma emits_write_proto mx self i :
  scope_fields_exist mx self = true ->
  emits (write_proto mx self) i (inr tt) (document mx i self).
Proof.
  intros Hall. unfold write_proto, document, header, service_pass, message_pass.
  eapply emits_eq.
  - do 6 (eapply emits_bind with (a := tt); [apply emits_write_line|]).
    eapply emits_bind with (a := tt).
    + apply (emits_concrete_pass (_generate_service mx)
               (fun m => service_block i m (grpc_methods_of mx m))).
      intros m _. apply emits_generate_service.
    + apply (emits_concrete_pass (_generate_message mx)
               (fun m => message_blocks i m (grpc_messages_of mx m))).
      intros m Hm. apply emits_generate_message.
      unfold scope_fields_exist in Hall. rewrite forallb_forall in Hall. now apply Hall.
  - generalize (flat (map (fun m => service_block i m (grpc_methods_of mx m))
                        (concrete (models self)))).
    generalize (flat (map (fun m => message_blocks i m (grpc_messages_of mx m))
                        (concrete (models self)))).
    intros messages services. same_text.
Qed.

(** X4. When every field name in the message sets of the concrete models of
    the scope is a field of its model, [get_proto] returns: the text is what
    the writer held, then the six header lines (the package is the
    application name, or the model name when the application name is
    empty), then the service blocks of all concrete models in scope order,
    then the message blocks of all concrete models in scope order. *)
Theorem get_proto_document mx self :
  scope_fields_exist mx self = true ->
  fst (get_proto mx self)
  = inr (buffer (_writer self) ++ document mx (_indent (_writer self)) self).
Proof.
  intros Hall.
  now rewrite (get_proto_emits _ _ _ _ (emits_write_proto mx self _ Hall)).
Qed.

Lemma get_proto_document_witness :
  fst (get_proto spec_mixins library_generator)
  = inr (document spec_mixins 0 library_generator).
Proof.
  exact (get_proto_document spec_mixins library_generator eq_refl).
Defined.

(** ** Exceptions *)

Lemma raises_only_ret {A} P (a : A) : raises_only P (ret a).
Proof. intros w e w' H. discriminate H. Qed.

Lemma raises_only_write_line P line : raises_only P (write_line line).
Proof. intros w e w' H. discriminate H. Qed.

Lemma raises_only_bind {A B} P (c : Code A) (k : A -> Code B) :
  raises_only P c -> (forall a, raises_only P (k a)) -> raises_only P (bind c k).
Proof.
  intros Hc Hk w e w' H. unfold bind in H.
  destruct (c w) as [[e1|a] w1] eqn:E.
  - injection H as <- <-. eapply Hc, E.
  - eapply Hk, H.
Qed.

Lemma raises_only_with_indent {A} P (body : Code A) :
  raises_only P body -> raises_only P (with_indent body).
Proof.
  intros Hb w e w' H. unfold with_indent in H.
  destruct (body (__enter__ w)) as [r w1] eqn:E. injection H as -> _.
  eapply Hb, E.
Qed.

Lemma raises_only_for_each {A} P (xs : list A) (body : A -> Code unit) :
  (forall x, In x xs -> raises_only P (body x)) -> raises_only P (for_each xs body).
Proof.
  induction xs as [|x xs IH]; intros H; simpl.
  - apply raises_only_ret.
  - apply raises_only_bind; [apply H; now left|].
    intros _. apply IH. intros y Hy. apply H. now right.
Qed.

Lemma raises_only_write_message_fields model names number :
  raises_only
    (fun e => exists n, In n names /\ find_field (get_model_fields model) n = None
                        /\ e = FieldDoesNotExist (__name__ model) n)
    (write_message_fields model names number).
Proof.
  revert number. induction names as [|n names IH]; intros number; simpl.
  - apply raises_only_ret.
  - apply raises_only_bind.
    + intros w e w' H. unfold lift, get_field in H.
      destruct (find_field (get_model_fields model) n) eqn:E; [discriminate|].
      injection H as <- _. exists n. auto.
    + intros f. apply raises_only_bind; [apply raises_only_write_line|].
      intros _ w e w' H. destruct (IH _ _ _ _ H) as (n' & Hin & Hnone & ->).
      exists n'. auto.
Qed.

Lemma raises_only_generate_message mx model :
  raises_only
    (fun e => exists msg spec n,
                In (msg, spec) (grpc_messages_of mx model)
                /\ In n (expand_fields model spec)
                /\ find_field (get_model_fields model) n = None
                /\ e = FieldDoesNotExist (__name__ model) n)
    (_generate_message mx model).
Proof.
  unfold _generate_message.
  assert (H : raises_only
                (fun e => exists msg spec n,
                            In (msg, spec) (grpc_messages_of mx model)
                            /\ In n (expand_fields model spec)
                            /\ find_field (get_model_fields model) n = None
                            /\ e = FieldDoesNotExist (__name__ model) n)
                (for_each (grpc_messages_of mx model) (write_message model))).
  { apply raises_only_for_each. intros [msg spec] Hin. unfold write_message.
    apply raises_only_bind; [apply raises_only_write_line|]. intros _.
    apply raises_only_bind.
    - apply raises_only_with_indent. intros w e w' H.
      destruct (raises_only_write_message_fields _ _ _ _ _ _ H) as (n & Hn & Hnone & ->).
      exists msg, spec, n. auto.
    - intros _. apply raises_only_bind; [apply raises_only_write_line|].
      intros _. apply raises_only_write_line. }
  destruct (grpc_messages_of mx model); [apply raises_only_ret | exact H].
Qed.

Lemma raises_only_write_proto mx self :
  raises_only (unknown_field_of mx self) (write_proto mx self).
Proof.
  unfold write_proto, service_pass, message_pass.
  do 6 (apply raises_only_bind; [apply raises_only_write_line | intros _]).
  apply raises_only_bind.
  - apply raises_only_for_each. intros m _.
    destruct (is_abstract_model m); [apply raises_only_ret|].
    intros w e w' H. rewrite (run_emits _ _ _ _ (emits_generate_service mx m _)) in H.
    discriminate H.
  - intros _. apply raises_only_for_each. intros m Hm.
    destruct (is_abstract_model m) eqn:E; [apply raises_only_ret|].
    intros w e w' H.
    destruct (raises_only_generate_message _ _ _ _ _ H)
      as (msg & spec & n & Hmsg & Hn & Hnone & ->).
    exists m, msg, spec, n. auto 10.
Qed.

(** X5. The only exception [get_proto] raises is that of an unknown field:
    it names a concrete model of the scope and a field name that the
    message set of this model has and the model has not. Abstract models and
    the service blocks never make it raise. *)
Theorem get_proto_raises_unknown_field mx self e :
  fst (get_proto mx self) = inl e ->
  unknown_field_of mx self e /\ scope_fields_exist mx self = false.
Proof.
  intros H. split.
  - unfold get_proto, get_proto_code, bind, get_code in H.
    destruct (write_proto mx self (_writer self)) as [[e1|[]] w1] eqn:E; simpl in H;
      [|discriminate].
    injection H as <-. eapply raises_only_write_proto, E.
  - destruct (scope_fields_exist mx self) eqn:Hall; [|reflexivity].
    rewrite (get_proto_emits _ _ _ _ (emits_write_proto mx self _ Hall)) in H.
    discriminate H.
Qed.

Lemma get_proto_raises_unknown_field_witness :
  unknown_field_of spec_mixins storage_generator (FieldDoesNotExist "Shelf" "floor").
Proof.
  exact (proj1 (get_proto_raises_unknown_field spec_mixins storage_generator
                  (FieldDoesNotExist "Shelf" "floor") eq_refl)).
Defined.

Lemma emits_write_message_fields_stop model good bad rest number i :
  (forall n, In n good -> find_field (get_model_fields model) n <> None) ->
  find_field (get_model_fields model) bad = None ->
  emits (write_message_fields model (good ++ bad :: rest)%list number) i
    (inl (FieldDoesNotExist (__name__ model) bad))
    (field_lines i model good (number + 1)).
Proof.
  intros Hgood Hbad. revert number.
  induction good as [|n good IH]; intros number; simpl.
  - apply emits_bind_raise. unfold get_field. rewrite Hbad. apply emits_lift.
  - destruct (find_field (get_model_fields model) n) as [f|] eqn:E;
      [|exfalso; apply (Hgood n); [now left | exact E]].
    eapply emits_eq.
    + eapply emits_bind with (a := f).
      { unfold get_field. rewrite E. apply emits_lift. }
      eapply emits_bind with (a := tt); [apply emits_write_line|].
      apply IH. intros n' Hn'. apply Hgood. now right.
    + unfold field_line, tag_of. rewrite E, (find_field_name _ _ _ E). same_text.
Qed.

(** X6. A message whose field names are fields of the model up to a name
    that is not stops at that name: the opening line and the lines of the
    fields before it, numbered from 1, stay in the buffer, the closing line
    is not written, the depth is back where it was, and the exception names
    the model and the first unknown field. *)
Theorem write_message_stops_at_unknown_field model msg good bad rest w :
  (forall n, In n good -> find_field (get_model_fields model) n <> None) ->
  find_field (get_model_fields model) bad = None ->
  write_message model (msg, FieldNames (good ++ bad :: rest)%list) w
  = (inl (FieldDoesNotExist (__name__ model) bad),
     emit w (pad (_indent w) ++ "message " ++ msg ++ " {" ++ newline
             ++ field_lines (_indent w + 1) model good 1)).
Proof.
  intros Hgood Hbad. apply run_emits. unfold write_message. simpl expand_fields.
  eapply emits_eq.
  - eapply emits_bind with (a := tt); [apply emits_write_line|].
    apply emits_bind_raise, emits_with_indent.
    apply (emits_write_message_fields_stop model good bad rest 0 _ Hgood Hbad).
  - change (0 + 1) with 1.
    generalize (field_lines (_indent w + 1) model good 1). intros lines. same_text.
Qed.

Lemma write_message_stops_at_unknown_field_witness :
  write_message Shelf ("ShelfRequest", FieldNames ["id"; "floor"; "room"]) new_writer
  = (inl (FieldDoesNotExist "Shelf" "floor"),
     emit new_writer ("message ShelfRequest {" ++ newline
                      ++ "    int32 id = 1;" ++ newline)).
Proof.
  apply (write_message_stops_at_unknown_field Shelf "ShelfRequest" ["id"] "floor" ["room"]
           new_writer).
  - intros n [<-|[]]. discriminate.
  - reflexivity.
Defined.

(** ** Scopes with nothing to write *)

Lemma emits_noop_pass {A} (xs : list A) (body : A -> Code unit) i :
  (forall x, In x xs -> emits (body x) i (inr tt) "") ->
  emits (for_each xs body) i (inr tt) "".
Proof.
  induction xs as [|x xs IH]; intros H; simpl.
  - apply emits_ret.
  - apply (emits_bind _ _ i tt "" (inr tt) "").
    + apply H. now left.
    + apply IH. intros y Hy. apply H. now right.
Qed.

Lemma emits_header_only mx self i :
  (forall m, In m (models self) ->
             is_abstract_model m = true
             \/ (grpc_methods_of mx m = [] /\ grpc_messages_of mx m = [])) ->
  emits (write_proto mx self) i (inr tt) (header i self).
Proof.
  intros H. unfold write_proto, header, service_pass, message_pass.
  eapply emits_eq.
  - do 6 (eapply emits_bind with (a := tt); [apply emits_write_line|]).
    eapply emits_bind with (a := tt); apply emits_noop_pass; intros m Hm;
      destruct (H m Hm) as [-> | [Hs Hmsg]]; try apply emits_ret;
      destruct (is_abstract_model m); try apply emits_ret.
    + unfold _generate_service. rewrite Hs. apply emits_ret.
    + unfold _generate_message. rewrite Hmsg. apply emits_ret.
  - same_text.
Qed.

(** X7. When every model of the scope is abstract or has neither a method
    nor a message (an empty scope too), [get_proto] returns the six header
    lines after what the writer held, and nothing else. *)
Theorem get_proto_header_only mx self :
  (forall m, In m (models self) ->
             is_abstract_model m = true
             \/ (grpc_methods_of mx m = [] /\ grpc_messages_of mx m = [])) ->
  fst (get_proto mx self)
  = inr (buffer (_writer self) ++ header (_indent (_writer self)) self).
Proof.
  intros H. now rewrite (get_proto_emits _ _ _ _ (emits_header_only mx self _ H)).
Qed.

Lemma get_proto_header_only_witness :
  fst (get_proto spec_mixins note_generator)
  = inr ("syntax = " ++ dquote ++ "proto3" ++ dquote ++ ";" ++ newline
         ++ newline
         ++ "package Note;" ++ newline
         ++ newline
         ++ "import " ++ dquote ++ "google/protobuf/empty.proto" ++ dquote ++ ";" ++ newline
         ++ newline).
Proof.
  apply (get_proto_header_only spec_mixins note_generator).
  intros m [<-|[<-|[]]]; [left | right]; auto.
Defined.



(** ** The default message set of any mixins *)

Lemma get_merge4 {V} (d1 d2 d3 d4 : Dict.t V) k :
  Dict.wf d1 = true -> Dict.wf d2 = true -> Dict.wf d3 = true -> Dict.wf d4 = true ->
  Dict.get (Dict.merge [d1; d2; d3; d4]) k
  = or_else (Dict.get d4 k)
      (or_else (Dict.get d3 k) (or_else (Dict.get d2 k) (Dict.get d1 k))).
Proof.
  intros H1 H2 H3 H4. unfold Dict.merge. simpl.
  rewrite !get_update by assumption. simpl.
  now destruct (Dict.get d1 k).
Qed.

(** X9. Whatever the mixins answer, the message set of a model with no
    message override takes a message name that several of the default
    messages share from the last of Create, List, Retrieve, Destroy, an
    order that differs from that of the default methods: a Retrieve or
    Destroy message with the name of the Create message replaces its field
    list by the primary key alone. *)
Theorem default_messages_merge_order mx model message_name :
  _meta_grpc_messages model = None ->
  Dict.wf (get_default_message (CreateModelMixin mx) (__name__ model) (Some AllFields)) = true ->
  Dict.wf (get_default_message (ListModelMixin mx) (__name__ model) None) = true ->
  Dict.wf (get_default_message (RetrieveModelMixin mx) (__name__ model)
             (Some (FieldNames [pk_name model]))) = true ->
  Dict.wf (get_default_message (DestroyModelMixin mx) (__name__ model)
             (Some (FieldNames [pk_name model]))) = true ->
  Dict.get (grpc_messages_of mx model) message_name
  = or_else (Dict.get (get_default_message (DestroyModelMixin mx) (__name__ model)
                         (Some (FieldNames [pk_name model]))) message_name)
      (or_else (Dict.get (get_default_message (RetrieveModelMixin mx) (__name__ model)
                            (Some (FieldNames [pk_name model]))) message_name)
         (or_else (Dict.get (get_default_message (ListModelMixin mx) (__name__ model) None)
                     message_name)
            (Dict.get (get_default_message (CreateModelMixin mx) (__name__ model)
                         (Some AllFields)) message_name))).
Proof.
  intros Hnone HC HL HR HD.
  unfold grpc_messages_of, get_default_grpc_messages. rewrite Hnone. simpl get_or.
  now apply get_merge4.
Qed.

Lemma default_messages_merge_order_witness :
  Dict.get (grpc_messages_of plain_mixins Book) "Book" = Some (FieldNames ["id"]).
Proof.
  exact (default_messages_merge_order plain_mixins Book "Book"
           eq_refl eq_refl eq_refl eq_refl eq_refl).
Defined.
